(** * 99 Bottles of Beer ([99/99.c]): a shallow embedding and its properties

    The program is a single [main]: a counting [for] loop that writes one
    verse per iteration with [printf], followed by two [puts] calls.  The
    embedding keeps that shape: standard output is a string threaded through
    a small state-and-error monad, [printf] is an interpreter for the
    conversions the program uses, the [int] counter is a [Z] with its 32-bit
    range written out, and the loop is run both as a function (with fuel) and
    as a transition system on [Counting n] states. *)

From Stdlib Require Import ZArith String Ascii List Bool Lia.
From Stdlib Require Import Numbers.DecimalString.
Import ListNotations.

Local Open Scope string_scope.
Local Open Scope Z_scope.

(** ** C [int] arithmetic *)

Module CInt.

Definition int_min : Z := - 2 ^ 31.
Definition int_max : Z := 2 ^ 31 - 1.

Definition in_range (z : Z) : bool := (int_min <=? z) && (z <=? int_max).

(** Two's-complement reduction of a mathematical result to 32 bits. *)
Definition wrap (z : Z) : Z := (z - int_min) mod 2 ^ 32 + int_min.

(** [a - b] and [--n] on [int]. *)
Definition sub (a b : Z) : Z := wrap (a - b).
Definition pred (n : Z) : Z := sub n 1.

End CInt.

(** ** The part of <stdio.h> the program uses *)

Module Stdio.

(** The newline character and the one-character string holding it. *)
Definition LF : ascii := ascii_of_nat 10.
Definition nl : string := String LF "".

(** Standard output is the text written so far.  A computation returns a
    value and the new output, or faults (a malformed [printf] call), or
    exhausts the fuel given to a loop. *)
Definition stdout : Type := string.

Inductive outcome (A : Type) : Type :=
| Returns (a : A) (out : stdout)
| Fault
| OutOfFuel.
Arguments Returns {A} a out.
Arguments Fault {A}.
Arguments OutOfFuel {A}.

Definition IO (A : Type) : Type := stdout -> outcome A.

Definition ret {A} (a : A) : IO A := fun out => Returns a out.

Definition bind {A B} (m : IO A) (k : A -> IO B) : IO B :=
  fun out =>
    match m out with
    | Returns a out' => k a out'
    | Fault => Fault
    | OutOfFuel => OutOfFuel
    end.

Definition write (s : string) : IO Z :=
  fun out => Returns (Z.of_nat (String.length s)) (out ++ s).

(** *** [%d] *)

Definition digit (d : Z) : ascii := ascii_of_nat (48 + Z.to_nat d).

(** Digits of a non-negative number, most significant first, pushed in
    front of [acc]. *)
Fixpoint digits_of (fuel : nat) (p : Z) (acc : string) : string :=
  match fuel with
  | O => acc
  | S fuel' =>
      let acc' := String (digit (p mod 10)) acc in
      if p <? 10 then acc' else digits_of fuel' (p / 10) acc'
  end.

(** An [int] has at most ten decimal digits. *)
Definition conv_d (z : Z) : string :=
  if z <? 0 then String "-" (digits_of 10 (- z) "") else digits_of 10 z "".

(** *** [printf] *)

Inductive arg : Type :=
| ArgInt (z : Z)
| ArgStr (s : string).

(** Expansion of a format string.  Only [%d], [%s] and [%%] are
    interpreted; any other conversion, or an argument that is missing or
    of the wrong kind, is an error.  Surplus arguments are ignored, as in
    C. *)
Fixpoint format (fmt : string) (args : list arg) : option string :=
  match fmt with
  | "" => Some ""
  | String c rest =>
      if Ascii.eqb c "%" then
        match rest with
        | String k rest' =>
            if Ascii.eqb k "d" then
              match args with
              | ArgInt z :: args' =>
                  option_map (append (conv_d z)) (format rest' args')
              | _ => None
              end
            else if Ascii.eqb k "s" then
              match args with
              | ArgStr s :: args' =>
                  option_map (append s) (format rest' args')
              | _ => None
              end
            else if Ascii.eqb k "%" then
              option_map (String "%") (format rest' args)
            else None
        | "" => None
        end
      else option_map (String c) (format rest args)
  end.

Definition printf (fmt : string) (args : list arg) : IO Z :=
  fun out =>
    match format fmt args with
    | Some s => write s out
    | None => Fault
    end.

(** [puts] writes the string and a newline. *)
Definition puts (s : string) : IO Z :=
  bind (write s) (fun _ => bind (write nl) (fun _ => ret 0)).

End Stdio.

Import Stdio.

Declare Scope io_scope.
Delimit Scope io_scope with io.
Notation "c1 ;; c2" := (bind c1 (fun _ => c2))
  (at level 61, right associativity) : io_scope.

(** ** The program *)

Module Bottles.

Local Open Scope io_scope.

(** [n==1?"":"s"] *)
Definition plural (n : Z) : string := if n =? 1 then "" else "s".

Definition fmt_wall_beer : string :=
  "%d bottle%s of beer on the wall, %d bottle%s of beer." ++ nl.
Definition fmt_take_down : string :=
  "Take one down and pass it around, %d bottle%s of beer on the wall."
    ++ nl ++ nl.
Definition fmt_no_more : string :=
  "Take one down and pass it around, no more bottles of beer on the wall."
    ++ nl ++ nl.

(** The body of the [for] loop. *)
Definition loop_body (n : Z) : IO Z :=
  printf fmt_wall_beer
    [ArgInt n; ArgStr (plural n); ArgInt n; ArgStr (plural n)] ;;
  if CInt.sub n 1 >? 0
  then printf fmt_take_down
         [ArgInt (CInt.sub n 1); ArgStr (plural (CInt.sub n 1))]
  else printf fmt_no_more [].

(** [for (int n = ...; n >= 1; --n) body], started with [n] already
    initialised. *)
Fixpoint for_loop (fuel : nat) (n : Z) : IO unit :=
  match fuel with
  | O => fun _ => OutOfFuel
  | S fuel' =>
      if n >=? 1
      then loop_body n ;; for_loop fuel' (CInt.pred n)
      else ret tt
  end.

Definition closing1 : string :=
  "No more bottles of beer on the wall, no more bottles of beer.".
Definition closing2 : string :=
  "Go to the store and buy some more, 99 bottles of beer on the wall.".

Definition main (fuel : nat) : IO Z :=
  for_loop fuel 99 ;;
  puts closing1 ;;
  puts closing2 ;;
  ret 0.

(** One run of the program, from an empty output. *)
Definition run (fuel : nat) : outcome Z := main fuel "".

(** The text a computation appends to an empty output ([""] if it does
    not return). *)
Definition emitted {A} (m : IO A) : string :=
  match m "" with
  | Returns _ out => out
  | _ => ""
  end.

(** The verse for [n] is what one execution of the loop body writes; the
    song is what a run with fuel for a hundred loop tests writes. *)
Definition verse_text (n : Z) : string := emitted (loop_body n).
Definition song : string := emitted (main 100).

End Bottles.

Import Bottles.

(** ** Reading the output back *)

Module Text.

Fixpoint no_LF (s : string) : bool :=
  match s with
  | "" => true
  | String c s' => negb (Ascii.eqb c LF) && no_LF s'
  end.

(** The newline-terminated lines of a text, without their terminators,
    and whatever follows the last newline. *)
Fixpoint lines (s : string) : list string * string :=
  match s with
  | "" => ([], "")
  | String c s' =>
      let (ls, tl) := lines s' in
      if Ascii.eqb c LF then ("" :: ls, tl)
      else match ls with
           | [] => ([], String c tl)
           | l :: ls' => (String c l :: ls', tl)
           end
  end.

Definition nth_line (i : nat) (s : string) : option string :=
  nth_error (fst (lines s)) i.

Fixpoint last_char (s : string) : option ascii :=
  match s with
  | "" => None
  | String c "" => Some c
  | String _ s' => last_char s'
  end.

(** Concatenation of a list of texts. *)
Definition cat (ss : list string) : string := fold_right append "" ss.

(** The integers [lo, lo+1, ..., lo+len-1]. *)
Fixpoint upto (lo : Z) (len : nat) : list Z :=
  match len with
  | O => []
  | S len' => lo :: upto (lo + 1) len'
  end.

(** Number of positions of [s] at which [needle] starts. *)
Fixpoint count_sub (needle s : string) : nat :=
  ((if prefix needle s then 1 else 0)
   + match s with
     | "" => 0
     | String _ s' => count_sub needle s'
     end)%nat.

(** Occurrences of [needle] in the [i]-th line of [text]. *)
Definition count_in_line (i : nat) (needle text : string) : option nat :=
  option_map (count_sub needle) (nth_line i text).

Definition is_digit (c : ascii) : bool :=
  let k := nat_of_ascii c in ((48 <=? k) && (k <=? 57))%nat.

Definition is_alnum (c : ascii) : bool :=
  let k := nat_of_ascii c in
  (is_digit c
   || ((65 <=? k) && (k <=? 90))
   || ((97 <=? k) && (k <=? 122)))%nat.

(** Maximal runs of letters and digits. *)
Fixpoint words (s : string) : list string :=
  match s with
  | "" => []
  | String c s' =>
      if is_alnum c then
        match s' with
        | String c' _ =>
            if is_alnum c' then
              match words s' with
              | w :: ws => String c w :: ws
              | [] => [String c ""]
              end
            else String c "" :: words s'
        | "" => [String c ""]
        end
      else words s'
  end.

Fixpoint numeral_from (acc : Z) (w : string) : option Z :=
  match w with
  | "" => Some acc
  | String c w' =>
      if is_digit c
      then numeral_from (10 * acc + Z.of_nat (nat_of_ascii c - 48)) w'
      else None
  end.

(** The value of a word made of decimal digits. *)
Definition numeral (w : string) : option Z :=
  match w with
  | "" => None
  | _ => numeral_from 0 w
  end.

(** The count a noun is attached to, from the two words before it: a
    numeral, or "no more" for zero. *)
Definition count_before (w2 w1 : string) : option Z :=
  match numeral w1 with
  | Some k => Some k
  | None =>
      if ((w1 =? "more") && ((w2 =? "no") || (w2 =? "No")))%string
      then Some 0
      else None
  end.

Definition is_noun (w : string) : bool :=
  ((w =? "bottle") || (w =? "bottles"))%string.

(** Every occurrence of the noun in a word list, with its count. *)
Fixpoint nouns_from (w2 w1 : string) (ws : list string)
  : list (option Z * string) :=
  match ws with
  | [] => []
  | w :: ws' =>
      if is_noun w
      then (count_before w2 w1, w) :: nouns_from w1 w ws'
      else nouns_from w1 w ws'
  end.

Definition noun_occurrences (s : string) : list (option Z * string) :=
  nouns_from "" "" (words s).

(** The noun of an occurrence has the number its count asks for: singular
    for one, plural for anything else; an occurrence without a count does
    not pass. *)
Definition number_agrees (occ : option Z * string) : bool :=
  match fst occ with
  | Some k =>
      Bool.eqb (k =? 1) (snd occ =? "bottle")%string
      && Bool.eqb (negb (k =? 1)) (snd occ =? "bottles")%string
  | None => false
  end.

End Text.

Import Text.

(** ** The lyrics as the specification words them *)

Module Lyrics.

(** The decimal numeral of a count, by the standard library's printer. *)
Definition decimal (n : Z) : string := NilEmpty.string_of_int (Z.to_int n).

(** [{s}]: empty when the count is one, ["s"] otherwise. *)
Definition s_of (n : Z) : string := if Z.eq_dec n 1 then "" else "s".

Definition line_A (n : Z) : string :=
  decimal n ++ " bottle" ++ s_of n ++ " of beer on the wall, "
    ++ decimal n ++ " bottle" ++ s_of n ++ " of beer.".

Definition line_B (n : Z) : string :=
  if Z_gt_dec (n - 1) 0
  then "Take one down and pass it around, "
         ++ decimal (n - 1) ++ " bottle" ++ s_of (n - 1)
         ++ " of beer on the wall."
  else "Take one down and pass it around, no more bottles of beer on the wall.".

(** A verse: Line A, Line B and a blank line, each newline-terminated. *)
Definition verse (n : Z) : string :=
  line_A n ++ nl ++ line_B n ++ nl ++ nl.

Definition verse_lines (n : Z) : list string := [line_A n; line_B n; ""].

(** The counts [k, k-1, ..., 1]. *)
Fixpoint countdown (k : nat) : list Z :=
  match k with
  | O => []
  | S k' => Z.of_nat k :: countdown k'
  end.

End Lyrics.

(** ** The loop as a transition system *)

Module Machine.

Inductive control : Type :=
| Counting (n : Z)
| Halted (status : Z).

Record config : Type := Config { ctl : control; out : string }.

Definition initial : config := Config (Counting 99) "".

(** What follows the loop in [main]. *)
Definition epilogue : IO Z :=
  (puts closing1 ;; puts closing2 ;; ret 0)%io.

Inductive step : config -> config -> Prop :=
| step_iterate n o r o' :
    (n >=? 1) = true ->
    loop_body n o = Returns r o' ->
    step (Config (Counting n) o) (Config (Counting (CInt.pred n)) o')
| step_leave n o status o' :
    (n >=? 1) = false ->
    epilogue o = Returns status o' ->
    step (Config (Counting n) o) (Config (Halted status) o').

Inductive steps : config -> config -> Prop :=
| steps_refl c : steps c c
| steps_cons c c' c'' : step c c' -> steps c' c'' -> steps c c''.

Definition halted (c : config) : Prop := exists status, ctl c = Halted status.

Definition reachable (c : config) : Prop := steps initial c.

(** A complete execution: from the initial configuration to a halted one. *)
Definition execution (c : config) : Prop := reachable c /\ halted c.

(** What holds of every reachable configuration: while counting at [n],
    the output so far followed by the verses for [n, ..., 1] is the whole
    verse part; once halted, the status is 0 and the output is the song. *)
Definition all_verses : string :=
  cat (map Lyrics.verse (Lyrics.countdown 99)).

Definition invariant (c : config) : Prop :=
  match ctl c with
  | Counting n =>
      exists k : nat,
        n = Z.of_nat k /\ (k <= 99)%nat /\
        (out c ++ cat (map Lyrics.verse (Lyrics.countdown k)))%string
        = all_verses
  | Halted status => status = 0 /\ out c = song
  end.

(** The same machine as a function, and the configurations it visits. *)
Definition next (c : config) : option config :=
  match ctl c with
  | Counting n =>
      if n >=? 1 then
        match loop_body n (out c) with
        | Returns _ o' => Some (Config (Counting (CInt.pred n)) o')
        | _ => None
        end
      else
        match epilogue (out c) with
        | Returns status o' => Some (Config (Halted status) o')
        | _ => None
        end
  | Halted _ => None
  end.

(** The counter values at which the loop body runs, along a list of
    configurations. *)
Definition body_runs (cs : list config) : list Z :=
  flat_map (fun c =>
              match ctl c with
              | Counting n => if n >=? 1 then [n] else []
              | Halted _ => []
              end) cs.

Fixpoint visited (fuel : nat) (c : config) : list config :=
  c :: match fuel with
       | O => []
       | S fuel' =>
           match next c with
           | Some c' => visited fuel' c'
           | None => []
           end
       end.

End Machine.

Import Machine.

(** * Properties *)

(** ** Strings and ranges *)

Lemma append_assoc (a b c : string) : ((a ++ b) ++ c = a ++ b ++ c)%string.
Proof. induction a as [|x a IH]; simpl; [reflexivity | now rewrite IH]. Qed.

Lemma append_empty_r (a : string) : (a ++ "" = a)%string.
Proof. induction a as [|x a IH]; simpl; [reflexivity | now rewrite IH]. Qed.

Lemma cat_app (xs ys : list string) :
  cat (xs ++ ys)%list = (cat xs ++ cat ys)%string.
Proof.
  induction xs as [|x xs IH]; simpl; [reflexivity|].
  now rewrite IH, append_assoc.
Qed.

(** A check that holds on every element of [upto lo len] holds on the whole
    interval. *)
Lemma forallb_upto (P : Z -> bool) (len : nat) :
  forall lo, forallb P (upto lo len) = true ->
  forall n, lo <= n < lo + Z.of_nat len -> P n = true.
Proof.
  induction len as [|len IH]; intros lo Hall n Hn.
  - simpl in Hn. lia.
  - simpl in Hall. apply andb_true_iff in Hall as [Hlo Hrest].
    destruct (Z.eq_dec n lo) as [->|Hne]; [exact Hlo|].
    apply (IH (lo + 1) Hrest). lia.
Qed.

(** ** [int] arithmetic stays exact on the counter *)

Lemma wrap_in_range (z : Z) : CInt.in_range z = true -> CInt.wrap z = z.
Proof.
  unfold CInt.in_range, CInt.wrap, CInt.int_min, CInt.int_max. intros H.
  apply andb_true_iff in H as [Hlo Hhi].
  apply Z.leb_le in Hlo, Hhi.
  rewrite Z.mod_small; lia.
Qed.

Lemma sub_one_exact (n : Z) : 0 <= n <= 99 -> CInt.sub n 1 = n - 1.
Proof.
  intros Hn. unfold CInt.sub. apply wrap_in_range.
  unfold CInt.in_range, CInt.int_min, CInt.int_max.
  apply andb_true_iff. split; apply Z.leb_le; lia.
Qed.

Lemma pred_exact (n : Z) : 0 <= n <= 99 -> CInt.pred n = n - 1.
Proof. exact (sub_one_exact n). Qed.

(** ** [%d] *)

Lemma digit_not_LF (d : Z) : 0 <= d < 10 -> Ascii.eqb (digit d) LF = false.
Proof.
  intros Hd.
  assert (H : d = 0 \/ d = 1 \/ d = 2 \/ d = 3 \/ d = 4 \/
              d = 5 \/ d = 6 \/ d = 7 \/ d = 8 \/ d = 9) by lia.
  repeat (destruct H as [->|H]; [reflexivity|]). now subst.
Qed.

Lemma no_LF_digits_of (fuel : nat) :
  forall p acc, no_LF acc = true -> no_LF (digits_of fuel p acc) = true.
Proof.
  induction fuel as [|fuel IH]; intros p acc Hacc; cbn [digits_of];
    [exact Hacc|].
  assert (Hstep : no_LF (String (digit (p mod 10)) acc) = true).
  { cbn [no_LF]. rewrite digit_not_LF, Hacc; [reflexivity|].
    apply Z.mod_pos_bound. lia. }
  destruct (p <? 10); [exact Hstep | now apply IH].
Qed.

Lemma no_LF_conv_d (z : Z) : no_LF (conv_d z) = true.
Proof.
  unfold conv_d. destruct (z <? 0).
  - change (no_LF (digits_of 10 (- z) "") = true). now apply no_LF_digits_of.
  - now apply no_LF_digits_of.
Qed.

(** On the counts of the song the conversion prints the standard decimal
    numeral. *)
Lemma conv_d_decimal (n : Z) : 0 <= n <= 99 -> conv_d n = Lyrics.decimal n.
Proof.
  intros Hn. apply String.eqb_eq.
  apply (forallb_upto (fun k => (conv_d k =? Lyrics.decimal k)%string) 100 0).
  - vm_compute. reflexivity.
  - simpl. lia.
Qed.

Lemma plural_s_of (n : Z) : plural n = Lyrics.s_of n.
Proof.
  unfold plural, Lyrics.s_of.
  destruct (Z.eqb_spec n 1), (Z.eq_dec n 1); congruence.
Qed.

(** ** The two formats, expanded *)

Lemma format_wall_beer (z : Z) (s : string) :
  format fmt_wall_beer [ArgInt z; ArgStr s; ArgInt z; ArgStr s]
  = Some ((conv_d z ++ " bottle" ++ s ++ " of beer on the wall, "
           ++ conv_d z ++ " bottle" ++ s ++ " of beer.") ++ nl)%string.
Proof. rewrite !append_assoc. reflexivity. Qed.

Lemma format_take_down (z : Z) (s : string) :
  format fmt_take_down [ArgInt z; ArgStr s]
  = Some (("Take one down and pass it around, " ++ conv_d z ++ " bottle" ++ s
           ++ " of beer on the wall.") ++ nl ++ nl)%string.
Proof. rewrite !append_assoc. reflexivity. Qed.

Lemma format_no_more :
  format fmt_no_more []
  = Some ("Take one down and pass it around, no more bottles of beer on the wall."
          ++ nl ++ nl)%string.
Proof. reflexivity. Qed.

(** ** Lines *)

Lemma no_LF_app (a b : string) : no_LF (a ++ b) = no_LF a && no_LF b.
Proof.
  induction a as [|c a IH]; cbn [append no_LF]; [reflexivity|].
  now rewrite IH, andb_assoc.
Qed.

(** A newline-free text followed by a newline is the first line of what it
    starts. *)
Lemma lines_line (a b : string) :
  no_LF a = true ->
  lines (a ++ nl ++ b) = (a :: fst (lines b), snd (lines b)).
Proof.
  induction a as [|c a IH]; intros Ha.
  - cbn [append nl lines]. destruct (lines b) as [ls tl].
    change (Ascii.eqb LF LF) with true. reflexivity.
  - cbn [no_LF] in Ha. apply andb_true_iff in Ha as [Hc Ha].
    apply negb_true_iff in Hc.
    cbn [append lines]. rewrite (IH Ha), Hc. reflexivity.
Qed.

(** Lines of a text that ends on a line boundary, followed by more text. *)
Lemma lines_app (a b : string) :
  snd (lines a) = "" ->
  lines (a ++ b) = ((fst (lines a) ++ fst (lines b))%list, snd (lines b)).
Proof.
  induction a as [|c a IH]; intros Ha.
  - cbn [append lines fst app]. now destruct (lines b).
  - cbn [append lines] in *.
    destruct (lines a) as [ls tl] eqn:El.
    destruct (Ascii.eqb c LF).
    + cbn [snd] in Ha. rewrite IH by exact Ha. reflexivity.
    + destruct ls as [|l ls]; cbn [snd] in Ha; [discriminate|].
      rewrite IH by exact Ha. reflexivity.
Qed.

Lemma no_LF_s_of (n : Z) : no_LF (Lyrics.s_of n) = true.
Proof. unfold Lyrics.s_of. now destruct (Z.eq_dec n 1). Qed.

Lemma no_LF_decimal (n : Z) : 0 <= n <= 99 -> no_LF (Lyrics.decimal n) = true.
Proof. intros Hn. rewrite <- conv_d_decimal by exact Hn. apply no_LF_conv_d. Qed.

Lemma no_LF_line_A (n : Z) : 0 <= n <= 99 -> no_LF (Lyrics.line_A n) = true.
Proof.
  intros Hn. unfold Lyrics.line_A.
  rewrite !no_LF_app, no_LF_decimal, no_LF_s_of by exact Hn. reflexivity.
Qed.

Lemma no_LF_line_B (n : Z) : 1 <= n <= 99 -> no_LF (Lyrics.line_B n) = true.
Proof.
  intros Hn. unfold Lyrics.line_B. destruct (Z_gt_dec (n - 1) 0); [|reflexivity].
  rewrite !no_LF_app, no_LF_decimal, no_LF_s_of by lia. reflexivity.
Qed.

Lemma lines_verse (n : Z) :
  1 <= n <= 99 ->
  lines (Lyrics.verse n) = ([Lyrics.line_A n; Lyrics.line_B n; ""], "").
Proof.
  intros Hn. unfold Lyrics.verse.
  rewrite lines_line by (apply no_LF_line_A; lia).
  rewrite lines_line by (apply no_LF_line_B; lia).
  reflexivity.
Qed.

(** ** The loop body *)

Lemma loop_body_writes (n : Z) (out : string) :
  1 <= n <= 99 ->
  exists r, loop_body n out = Returns r (out ++ Lyrics.verse n).
Proof.
  intros Hn. unfold loop_body, bind, printf, write.
  rewrite format_wall_beer, sub_one_exact by lia.
  unfold Lyrics.verse, Lyrics.line_A, Lyrics.line_B.
  rewrite <- !plural_s_of, <- !conv_d_decimal by lia.
  destruct (Z_gt_dec (n - 1) 0) as [Hgt|Hle].
  - apply Z.gt_lt, Z.gtb_lt in Hgt. rewrite Hgt, format_take_down.
    eexists. f_equal. rewrite !append_assoc. reflexivity.
  - assert (Hgt : (n - 1 >? 0) = false).
    { destruct (n - 1 >? 0) eqn:E; [|reflexivity].
      apply Z.gtb_lt in E. lia. }
    rewrite Hgt, format_no_more.
    eexists. f_equal. rewrite !append_assoc. reflexivity.
Qed.

Lemma verse_text_eq (n : Z) : 1 <= n <= 99 -> verse_text n = Lyrics.verse n.
Proof.
  intros Hn. unfold verse_text, emitted.
  destruct (loop_body_writes n "" Hn) as [r ->]. reflexivity.
Qed.

Example verse_99 :
  verse_text 99
  = ("99 bottles of beer on the wall, 99 bottles of beer." ++ nl
     ++ "Take one down and pass it around, 98 bottles of beer on the wall."
     ++ nl ++ nl)%string.
Proof. vm_compute. reflexivity. Qed.

Example verse_1 :
  verse_text 1
  = ("1 bottle of beer on the wall, 1 bottle of beer." ++ nl
     ++ "Take one down and pass it around, no more bottles of beer on the wall."
     ++ nl ++ nl)%string.
Proof. vm_compute. reflexivity. Qed.

Lemma In_countdown (k : nat) (n : Z) :
  In n (Lyrics.countdown k) <-> 1 <= n <= Z.of_nat k.
Proof.
  induction k as [|k IH]; cbn [Lyrics.countdown In].
  - lia.
  - rewrite IH. lia.
Qed.

Lemma map_verse_text (k : nat) :
  (k <= 99)%nat ->
  map verse_text (Lyrics.countdown k) = map Lyrics.verse (Lyrics.countdown k).
Proof.
  intros Hk. apply map_ext_in. intros n Hin.
  apply In_countdown in Hin. apply verse_text_eq. lia.
Qed.

(** ** The loop *)

(** With fuel for its [k + 1] tests, the loop started at [k] writes the
    verses for [k, k-1, ..., 1] and returns. *)
Lemma for_loop_countdown (k : nat) :
  forall fuel out,
    (k < fuel)%nat -> (k <= 99)%nat ->
    for_loop fuel (Z.of_nat k) out
    = Returns tt (out ++ cat (map Lyrics.verse (Lyrics.countdown k))).
Proof.
  induction k as [|k IH]; intros fuel out Hfuel Hk;
    (destruct fuel as [|fuel]; [lia|]); cbn [for_loop].
  - cbn [Lyrics.countdown map cat fold_right]. now rewrite append_empty_r.
  - assert (Hn : 1 <= Z.of_nat (S k) <= 99) by lia.
    assert (Hge : (Z.of_nat (S k) >=? 1) = true) by (apply Z.geb_le; lia).
    rewrite Hge. unfold bind.
    destruct (loop_body_writes (Z.of_nat (S k)) out Hn) as [r ->].
    rewrite pred_exact by lia.
    replace (Z.of_nat (S k) - 1) with (Z.of_nat k) by lia.
    rewrite IH by lia.
    cbn [Lyrics.countdown map cat fold_right].
    now rewrite append_assoc.
Qed.

Lemma main_returns (fuel : nat) :
  (100 <= fuel)%nat ->
  main fuel ""
  = Returns 0 (cat (map Lyrics.verse (Lyrics.countdown 99))
               ++ closing1 ++ nl ++ closing2 ++ nl).
Proof.
  intros Hfuel. unfold main, bind.
  change 99 with (Z.of_nat 99).
  rewrite for_loop_countdown by lia.
  unfold puts, bind, write, ret. cbn [append].
  now rewrite !append_assoc.
Qed.

Lemma song_eq :
  song = (cat (map Lyrics.verse (Lyrics.countdown 99))
          ++ closing1 ++ nl ++ closing2 ++ nl)%string.
Proof. unfold song, emitted. now rewrite main_returns by lia. Qed.

Lemma run_returns (fuel : nat) : (100 <= fuel)%nat -> run fuel = Returns 0 song.
Proof. intros Hfuel. unfold run. now rewrite main_returns, song_eq. Qed.

(** ** The transition system *)

Lemma epilogue_writes (o : string) :
  epilogue o = Returns 0 (o ++ closing1 ++ nl ++ closing2 ++ nl).
Proof.
  unfold epilogue, puts, bind, write, ret. now rewrite !append_assoc.
Qed.

Lemma main_epilogue (fuel : nat) :
  main fuel = bind (for_loop fuel 99) (fun _ => epilogue).
Proof. reflexivity. Qed.

Lemma step_next (c c' : config) : step c c' <-> next c = Some c'.
Proof.
  split.
  - intros H. destruct H as [n o r o' Hn Hbody | n o status o' Hn Hepi];
      unfold next; cbn [ctl out]; rewrite Hn.
    + now rewrite Hbody.
    + now rewrite Hepi.
  - destruct c as [[n|status] o]; unfold next; cbn [ctl out];
      [|discriminate].
    destruct (n >=? 1) eqn:Hn.
    + destruct (loop_body n o) as [r o'| |] eqn:Hbody; try discriminate.
      intros [= <-]. now apply step_iterate with r.
    + destruct (epilogue o) as [status o'| |] eqn:Hepi; try discriminate.
      intros [= <-]. now apply step_leave.
Qed.

Lemma step_deterministic (c c1 c2 : config) :
  step c c1 -> step c c2 -> c1 = c2.
Proof.
  intros H1 H2.
  inversion H1 as [n o r o1 Hn Hb | n o st o1 Hn He]; subst;
    inversion H2 as [n' o' r' o2 Hn' Hb' | n' o' st' o2 Hn' He']; subst;
    congruence.
Qed.

Lemma halted_stuck (c c' : config) : halted c -> ~ step c c'.
Proof.
  intros [status Hc] Hstep. destruct Hstep; cbn [ctl] in Hc; discriminate.
Qed.

Lemma steps_trans (a b c : config) : steps a b -> steps b c -> steps a c.
Proof.
  induction 1 as [|x y z Hxy Hyz IH]; intros Hbc; [exact Hbc|].
  apply steps_cons with y; [exact Hxy | now apply IH].
Qed.

(** Two runs from the same configuration that both halt halt in the same
    configuration. *)
Lemma steps_halted_unique (c c1 c2 : config) :
  steps c c1 -> halted c1 -> steps c c2 -> halted c2 -> c1 = c2.
Proof.
  intros H1. revert c2.
  induction H1 as [c|c c' c1 Hstep Hrest IH]; intros c2 Hh1 H2 Hh2.
  - destruct H2 as [|c c' c2 Hstep _]; [reflexivity|].
    now destruct (halted_stuck _ _ Hh1 Hstep).
  - destruct H2 as [c|c d c2 Hstep' Hrest'].
    + now destruct (halted_stuck _ _ Hh2 Hstep).
    + rewrite (step_deterministic _ _ _ Hstep' Hstep) in Hrest'.
      now apply IH.
Qed.

Lemma invariant_initial : invariant initial.
Proof.
  exists 99%nat. split; [reflexivity | split; [lia | reflexivity]].
Qed.

Lemma invariant_step (c c' : config) : invariant c -> step c c' -> invariant c'.
Proof.
  intros Hinv Hstep.
  destruct Hstep as [n o r o' Hn Hbody | n o status o' Hn Hepi];
    unfold invariant in *; cbn [ctl out] in *;
    destruct Hinv as (k & -> & Hk & Hout).
  - apply Z.geb_le in Hn.
    destruct k as [|k]; [lia|].
    destruct (loop_body_writes (Z.of_nat (S k)) o ltac:(lia)) as [r' Hr].
    rewrite Hr in Hbody. injection Hbody as _ <-.
    exists k. rewrite pred_exact by lia.
    split; [lia | split; [lia|]].
    rewrite <- Hout. cbn [Lyrics.countdown map cat fold_right].
    now rewrite append_assoc.
  - assert (k = 0%nat) as ->.
    { destruct (Z.geb_spec (Z.of_nat k) 1); [discriminate | lia]. }
    cbn [Lyrics.countdown map cat fold_right] in Hout.
    rewrite append_empty_r in Hout.
    rewrite epilogue_writes in Hepi. injection Hepi as <- <-.
    split; [reflexivity|]. now rewrite song_eq, Hout.
Qed.

Lemma invariant_steps (c c' : config) : steps c c' -> invariant c -> invariant c'.
Proof.
  induction 1 as [|x y z Hxy _ IH]; intros Hinv; [exact Hinv|].
  apply IH. now apply invariant_step with x.
Qed.

Lemma invariant_reachable (c : config) : reachable c -> invariant c.
Proof. intros Hr. exact (invariant_steps _ _ Hr invariant_initial). Qed.

(** The machine counts down from [k] to [0], writing the verses on the way. *)
Lemma steps_countdown (k : nat) :
  forall o,
    (k <= 99)%nat ->
    steps (Config (Counting (Z.of_nat k)) o)
          (Config (Counting 0)
                  (o ++ cat (map Lyrics.verse (Lyrics.countdown k)))).
Proof.
  induction k as [|k IH]; intros o Hk.
  - cbn [Lyrics.countdown map cat fold_right]. rewrite append_empty_r.
    apply steps_refl.
  - destruct (loop_body_writes (Z.of_nat (S k)) o ltac:(lia)) as [r Hr].
    apply steps_cons
      with (Config (Counting (CInt.pred (Z.of_nat (S k))))
                   (o ++ Lyrics.verse (Z.of_nat (S k)))).
    + apply step_iterate with r; [apply Z.geb_le; lia | exact Hr].
    + rewrite pred_exact by lia.
      replace (Z.of_nat (S k) - 1) with (Z.of_nat k) by lia.
      cbn [Lyrics.countdown map cat fold_right].
      rewrite <- append_assoc. apply IH. lia.
Qed.

(** The program has a complete execution, and it ends with the song written
    and status 0. *)
Lemma execution_song : execution (Config (Halted 0) song).
Proof.
  split; [|now exists 0].
  unfold reachable.
  apply steps_trans with (Config (Counting 0) all_verses).
  - exact (steps_countdown 99 "" ltac:(lia)).
  - apply steps_cons with (Config (Halted 0) song); [|apply steps_refl].
    apply step_leave; [reflexivity|].
    now rewrite epilogue_writes, song_eq.
Qed.

Lemma visited_steps (fuel : nat) :
  forall c c', In c' (visited fuel c) -> steps c c'.
Proof.
  induction fuel as [|fuel IH]; intros c c' Hin; cbn [visited In] in Hin.
  - destruct Hin as [<-|[]]. apply steps_refl.
  - destruct Hin as [<-|Hin]; [apply steps_refl|].
    destruct (next c) as [d|] eqn:Hnext; [|destruct Hin].
    apply steps_cons with d; [now apply step_next | now apply IH].
Qed.

(** ** The song, line by line *)

Lemma nth_error_countdown (k : nat) :
  forall i, (i < k)%nat ->
    nth_error (Lyrics.countdown k) i = Some (Z.of_nat k - Z.of_nat i).
Proof.
  induction k as [|k IH]; intros i Hi; [lia|].
  destruct i as [|i]; cbn [Lyrics.countdown nth_error].
  - f_equal; lia.
  - rewrite IH by lia. f_equal; lia.
Qed.

Lemma length_countdown (k : nat) : length (Lyrics.countdown k) = k.
Proof. induction k as [|k IH]; cbn [Lyrics.countdown length]; congruence. Qed.

Lemma lines_cat_verses (k : nat) :
  (k <= 99)%nat ->
  lines (cat (map Lyrics.verse (Lyrics.countdown k)))
  = (flat_map Lyrics.verse_lines (Lyrics.countdown k), "").
Proof.
  induction k as [|k IH]; intros Hk; [reflexivity|].
  cbn [Lyrics.countdown map cat fold_right flat_map].
  assert (Hv := lines_verse (Z.of_nat (S k)) ltac:(lia)).
  rewrite lines_app by now rewrite Hv.
  rewrite Hv. cbn [fst]. fold (cat (map Lyrics.verse (Lyrics.countdown k))).
  rewrite IH by lia. reflexivity.
Qed.

Lemma lines_closing :
  lines (closing1 ++ nl ++ closing2 ++ nl) = ([closing1; closing2], "").
Proof. now rewrite !lines_line by reflexivity. Qed.

Lemma lines_song :
  lines song
  = ((flat_map Lyrics.verse_lines (Lyrics.countdown 99)
      ++ [closing1; closing2])%list, "").
Proof.
  rewrite song_eq, lines_app by now rewrite lines_cat_verses.
  now rewrite lines_cat_verses, lines_closing.
Qed.

Lemma length_flat_map_verse_lines (ns : list Z) :
  length (flat_map Lyrics.verse_lines ns) = (3 * length ns)%nat.
Proof.
  induction ns as [|n ns IH]; [reflexivity|].
  cbn [flat_map Lyrics.verse_lines app length]. lia.
Qed.

Lemma last_char_nl (a : string) : last_char (a ++ nl) = Some LF.
Proof.
  induction a as [|c a IH]; [reflexivity|].
  cbn [append last_char]. rewrite IH.
  destruct (a ++ nl)%string eqn:E; [|reflexivity].
  destruct a; discriminate.
Qed.

(** * The specification, sentence by sentence *)

(** C1. For every [n] from 99 down to 1, the verse for [n] (what the loop
    body appends to the output, whatever was written before) has as its
    first line exactly ["{n} bottle{s} of beer on the wall, {n} bottle{s} of
    beer."], newline-terminated, where [{n}] is the decimal numeral of [n]
    in both places and [{s}] is empty if [n = 1] and ["s"] otherwise. *)
Theorem C1_verse_first_line (n : Z) :
  1 <= n <= 99 ->
  let d := Lyrics.decimal n in
  let s := if Z.eq_dec n 1 then "" else "s" in
  let line := (d ++ " bottle" ++ s ++ " of beer on the wall, "
                 ++ d ++ " bottle" ++ s ++ " of beer.")%string in
  (forall out, exists r, loop_body n out = Returns r (out ++ verse_text n))
  /\ nth_line 0 (verse_text n) = Some line
  /\ exists rest, verse_text n = (line ++ nl ++ rest)%string.
Proof.
  intros Hn d s line.
  change line with (Lyrics.line_A n).
  rewrite verse_text_eq by exact Hn.
  split; [|split].
  - intros out. now apply loop_body_writes.
  - unfold nth_line. now rewrite lines_verse.
  - now exists (Lyrics.line_B n ++ nl ++ nl)%string.
Qed.

Lemma C1_verse_first_line_witness :
  1 <= 1 <= 99
  /\ nth_line 0 (verse_text 1)
     = Some "1 bottle of beer on the wall, 1 bottle of beer.".
Proof.
  split; [lia|].
  exact (proj1 (proj2 (C1_verse_first_line 1 ltac:(lia)))).
Defined.

(** C2. For every [n] from 99 down to 1, the second line of the verse for
    [n] is ["Take one down and pass it around, {n-1} bottle{s'} of beer on
    the wall."] with [{s'}] chosen by the same rule for [n - 1] when
    [n - 1 > 0], and the fixed "no more bottles" text when [n - 1 = 0]; the
    verse then ends with one blank line: it has exactly three
    newline-terminated lines, the third empty, and nothing after them. *)
Theorem C2_verse_second_line (n : Z) :
  1 <= n <= 99 ->
  (n - 1 > 0 ->
   nth_line 1 (verse_text n)
   = Some ("Take one down and pass it around, "
             ++ Lyrics.decimal (n - 1) ++ " bottle"
             ++ (if Z.eq_dec (n - 1) 1 then "" else "s")
             ++ " of beer on the wall.")%string)
  /\ (n - 1 = 0 ->
      nth_line 1 (verse_text n)
      = Some "Take one down and pass it around, no more bottles of beer on the wall.")
  /\ nth_line 2 (verse_text n) = Some ""
  /\ length (fst (lines (verse_text n))) = 3%nat
  /\ snd (lines (verse_text n)) = "".
Proof.
  intros Hn. rewrite verse_text_eq by exact Hn.
  unfold nth_line. rewrite lines_verse by exact Hn.
  cbn [fst snd nth_error length].
  split; [|split; [|split; [|split]]]; try reflexivity.
  - intros Hgt. unfold Lyrics.line_B.
    now destruct (Z_gt_dec (n - 1) 0).
  - intros Hz. unfold Lyrics.line_B.
    destruct (Z_gt_dec (n - 1) 0); [lia | reflexivity].
Qed.

Lemma C2_verse_second_line_witness :
  1 <= 2 <= 99
  /\ nth_line 1 (verse_text 2)
     = Some "Take one down and pass it around, 1 bottle of beer on the wall."
  /\ nth_line 2 (verse_text 2) = Some "".
Proof.
  split; [lia|].
  pose proof (C2_verse_second_line 2 ltac:(lia)) as (Hgt & _ & Hblank & _).
  split; [exact (Hgt ltac:(lia)) | exact Hblank].
Defined.

(** C3. With enough fuel the program returns, and its output is the verses
    for 99, 98, ..., 1 one after the other, in that order and with nothing
    before or between them, followed only by the closing couplet: 99 verses,
    the [i]-th (from 0) being the verse for [99 - i], each made of its Line
    A, its Line B and a blank line. *)
Theorem C3_ninety_nine_verses (fuel : nat) :
  (100 <= fuel)%nat ->
  run fuel
  = Returns 0 (cat (map verse_text (Lyrics.countdown 99))
               ++ closing1 ++ nl ++ closing2 ++ nl)
  /\ length (Lyrics.countdown 99) = 99%nat
  /\ (forall i, (i < 99)%nat ->
        nth_error (Lyrics.countdown 99) i = Some (99 - Z.of_nat i))
  /\ (forall n, In n (Lyrics.countdown 99) ->
        lines (verse_text n) = (Lyrics.verse_lines n, ""))
  /\ fst (lines song)
     = (flat_map Lyrics.verse_lines (Lyrics.countdown 99)
        ++ [closing1; closing2])%list.
Proof.
  intros Hfuel. split; [|split; [|split; [|split]]].
  - rewrite run_returns, song_eq, map_verse_text by lia. reflexivity.
  - apply length_countdown.
  - intros i Hi. now rewrite nth_error_countdown.
  - intros n Hin. apply In_countdown in Hin.
    rewrite verse_text_eq by lia. apply lines_verse. lia.
  - now rewrite lines_song.
Qed.

Lemma C3_ninety_nine_verses_witness :
  (100 <= 100)%nat
  /\ nth_error (Lyrics.countdown 99) 98 = Some 1
  /\ run 100
     = Returns 0 (cat (map verse_text (Lyrics.countdown 99))
                  ++ closing1 ++ nl ++ closing2 ++ nl).
Proof.
  split; [lia|].
  pose proof (C3_ninety_nine_verses 100 ltac:(lia)) as (Hrun & _ & Hnth & _).
  split; [exact (Hnth 98%nat ltac:(lia)) | exact Hrun].
Defined.

(** C5. After the verse for [n = 1] the program writes exactly the two
    fixed closing lines, each newline-terminated; they are the last two
    lines of the output and nothing, not even a blank line, follows. *)
Theorem C5_closing_couplet :
  let l1 := "No more bottles of beer on the wall, no more bottles of beer." in
  let l2 := "Go to the store and buy some more, 99 bottles of beer on the wall." in
  let before := cat (map verse_text (removelast (Lyrics.countdown 99))) in
  run 100 = Returns 0 song
  /\ song = (before ++ verse_text 1 ++ l1 ++ nl ++ l2 ++ nl)%string
  /\ lines song
     = ((fst (lines (before ++ verse_text 1)) ++ [l1; l2])%list, "").
Proof.
  intros l1 l2 before.
  assert (Hsong : song = ((before ++ verse_text 1) ++ l1 ++ nl ++ l2 ++ nl)%string).
  { rewrite song_eq.
    apply (f_equal (fun t => t ++ closing1 ++ nl ++ closing2 ++ nl)%string).
    rewrite <- map_verse_text by lia.
    change (Lyrics.countdown 99)
      with (removelast (Lyrics.countdown 99) ++ [1])%list at 1.
    rewrite map_app, cat_app. cbn [map cat fold_right].
    now rewrite append_empty_r. }
  split; [apply run_returns; lia|].
  split; [rewrite Hsong; apply append_assoc|].
  rewrite Hsong.
  assert (Hsnd : snd (lines (before ++ verse_text 1)) = "").
  { subst before. rewrite <- (append_empty_r (verse_text 1)).
    change (verse_text 1 ++ "")%string with (cat (map verse_text [1])).
    rewrite <- cat_app, <- map_app.
    change (removelast (Lyrics.countdown 99) ++ [1])%list
      with (Lyrics.countdown 99).
    rewrite map_verse_text, lines_cat_verses by lia. reflexivity. }
  rewrite lines_app by exact Hsnd.
  change (l1 ++ nl ++ l2 ++ nl)%string
    with (closing1 ++ nl ++ closing2 ++ nl)%string.
  rewrite lines_closing. cbn [fst snd]. reflexivity.
Qed.

(** C10. The complete output is 299 newline-terminated lines (three for
    each of the 99 verses, then the two closing lines), with nothing after
    the last newline: its final character is a newline. *)
Theorem C10_line_count :
  length (fst (lines song)) = 299%nat
  /\ length (fst (lines song)) = (99 * 3 + 2)%nat
  /\ fst (lines song)
     = (flat_map Lyrics.verse_lines (Lyrics.countdown 99)
        ++ [closing1; closing2])%list
  /\ snd (lines song) = ""
  /\ last_char song = Some LF.
Proof.
  assert (Hlen : length (fst (lines song)) = 299%nat).
  { rewrite lines_song. cbn [fst].
    rewrite length_app, length_flat_map_verse_lines, length_countdown.
    reflexivity. }
  split; [|split; [|split; [|split]]];
    try exact Hlen; try now rewrite lines_song.
  rewrite song_eq, <- !append_assoc. apply last_char_nl.
Qed.

(** ** The machine runs the loop of [main] *)

(** Whenever the loop function returns, the machine has walked the same
    iterations: it has gone from [Counting n] with the loop's initial output
    to a [Counting m] that fails the loop test, with the loop's final
    output. *)
Lemma for_loop_steps (fuel : nat) :
  forall n o r o',
    for_loop fuel n o = Returns r o' ->
    exists m, (m >=? 1) = false
              /\ steps (Config (Counting n) o) (Config (Counting m) o').
Proof.
  induction fuel as [|fuel IH]; intros n o r o' Hloop; cbn [for_loop] in Hloop.
  - discriminate Hloop.
  - destruct (n >=? 1) eqn:Hn.
    + unfold bind in Hloop.
      destruct (loop_body n o) as [r1 o1| |] eqn:Hbody; try discriminate Hloop.
      destruct (IH _ _ _ _ Hloop) as (m & Hm & Hsteps).
      exists m. split; [exact Hm|].
      apply steps_cons with (Config (Counting (CInt.pred n)) o1);
        [now apply step_iterate with r1 | exact Hsteps].
    + unfold ret in Hloop. injection Hloop as _ <-.
      exists n. split; [exact Hn | apply steps_refl].
Qed.

(** Whatever [main] returns, with whatever fuel, is the end of a complete
    execution of the machine. *)
Lemma run_execution (fuel : nat) (s : Z) (o : string) :
  run fuel = Returns s o -> execution (Config (Halted s) o).
Proof.
  unfold run. rewrite main_epilogue. unfold bind. intros Hrun.
  destruct (for_loop fuel 99 "") as [r o1| |] eqn:Hloop; try discriminate Hrun.
  destruct (for_loop_steps _ _ _ _ _ Hloop) as (m & Hm & Hsteps).
  split; [|now exists s].
  unfold reachable, initial.
  apply steps_trans with (Config (Counting m) o1); [exact Hsteps|].
  apply steps_cons with (Config (Halted s) o); [|apply steps_refl].
  now apply step_leave.
Qed.

(** C6. As a machine on [Counting n] states: the counter starts at 99; from
    a reachable [Counting n] the only moves are an iteration, for [n] between
    1 and 99, which appends the verse for [n] and goes to [Counting (n - 1)],
    and, at [n = 0], leaving the loop, which appends the closing couplet and
    halts without writing a verse.  The run visits [Counting 99], ...,
    [Counting 1], [Counting 0] and halts, so the body runs once for each of
    99, ..., 1 and never for 0.  This machine is the loop [main] runs:
    whenever [for_loop] returns, the machine has stepped from its start to a
    counter that fails the loop test with the same output; whatever [run]
    returns is the end of a complete execution of the machine; and with
    fuel for a hundred tests [run] does return, with status 0 and the output
    of the machine's last configuration. *)
Theorem C6_counting_machine :
  ctl initial = Counting 99
  /\ (forall c c' n,
        reachable c -> ctl c = Counting n -> step c c' ->
        (1 <= n <= 99 /\ ctl c' = Counting (n - 1)
         /\ out c' = (out c ++ verse_text n)%string)
        \/ (n = 0 /\ ctl c' = Halted 0
            /\ out c' = (out c ++ closing1 ++ nl ++ closing2 ++ nl)%string))
  /\ map ctl (visited 100 initial)
     = (map Counting (Lyrics.countdown 99) ++ [Counting 0; Halted 0])%list
  /\ body_runs (visited 100 initial) = Lyrics.countdown 99
  /\ (forall c, In c (visited 100 initial) -> reachable c)
  /\ execution (last (visited 100 initial) initial)
  /\ (forall fuel n o r o',
        for_loop fuel n o = Returns r o' ->
        exists m, (m >=? 1) = false
                  /\ steps (Config (Counting n) o) (Config (Counting m) o'))
  /\ (forall fuel s o,
        run fuel = Returns s o -> execution (Config (Halted s) o))
  /\ (forall fuel,
        (100 <= fuel)%nat ->
        run fuel = Returns 0 (out (last (visited 100 initial) initial))).
Proof.
  split; [reflexivity|].
  split.
  { intros c c' n Hreach Hctl Hstep.
    apply invariant_reachable in Hreach.
    destruct Hstep as [m o r o' Hm Hbody | m o status o' Hm Hepi];
      unfold invariant in Hreach; cbn [ctl out] in *;
      injection Hctl as ->;
      destruct Hreach as (k & -> & Hk & _).
    - left. apply Z.geb_le in Hm.
      assert (Hn : 1 <= Z.of_nat k <= 99) by lia.
      destruct (loop_body_writes _ o Hn) as [r' Hr].
      rewrite Hr in Hbody. injection Hbody as _ <-.
      rewrite pred_exact, verse_text_eq by lia. auto.
    - right.
      assert (Z.of_nat k = 0) as ->.
      { destruct (Z.geb_spec (Z.of_nat k) 1); [discriminate | lia]. }
      rewrite epilogue_writes in Hepi. injection Hepi as <- <-. auto. }
  split; [vm_compute; reflexivity|].
  split; [vm_compute; reflexivity|].
  split; [intros c Hin; exact (visited_steps _ _ _ Hin)|].
  replace (last (visited 100 initial) initial) with (Config (Halted 0) song)
    by (vm_compute; reflexivity).
  split; [exact execution_song|].
  split; [intros fuel n o r o' Hloop; exact (for_loop_steps _ _ _ _ _ Hloop)|].
  split; [intros fuel s o Hrun; exact (run_execution _ _ _ Hrun)|].
  intros fuel Hfuel. cbn [out]. now apply run_returns.
Qed.

Lemma C6_counting_machine_witness :
  reachable initial
  /\ step initial (Config (Counting 98) (verse_text 99))
  /\ out (Config (Counting 98) (verse_text 99))
     = (out initial ++ verse_text 99)%string.
Proof.
  assert (Hreach : reachable initial) by apply steps_refl.
  assert (Hstep : step initial (Config (Counting 98) (verse_text 99))).
  { apply step_next. vm_compute. reflexivity. }
  split; [exact Hreach | split; [exact Hstep|]].
  destruct (proj1 (proj2 C6_counting_machine) _ _ 99 Hreach eq_refl Hstep)
    as [(_ & _ & Hout) | (H0 & _)]; [exact Hout | discriminate H0].
Defined.

(** C9. The program is deterministic.  It reads nothing, so a run is fixed
    by the program alone: any two complete executions of the machine end in
    the same configuration, with equal output and equal status, and the
    functional run gives that same result for every sufficient fuel. *)
Theorem C9_deterministic (c1 c2 : config) (f1 f2 : nat) :
  execution c1 -> execution c2 ->
  (100 <= f1)%nat -> (100 <= f2)%nat ->
  out c1 = out c2
  /\ ctl c1 = ctl c2
  /\ run f1 = run f2
  /\ run f1 = Returns 0 (out c1).
Proof.
  intros [Hr1 Hh1] [Hr2 Hh2] Hf1 Hf2.
  assert (E2 : c2 = c1) by exact (steps_halted_unique _ _ _ Hr2 Hh2 Hr1 Hh1).
  destruct execution_song as [Hrs Hhs].
  assert (E1 : c1 = Config (Halted 0) song)
    by exact (steps_halted_unique _ _ _ Hr1 Hh1 Hrs Hhs).
  subst c2. subst c1. cbn [out ctl].
  rewrite !run_returns by assumption. auto.
Qed.

Lemma C9_deterministic_witness :
  execution (Config (Halted 0) song)
  /\ (100 <= 100)%nat /\ (100 <= 250)%nat
  /\ run 100 = run 250.
Proof.
  split; [exact execution_song|].
  split; [lia|]. split; [lia|].
  exact (proj1 (proj2 (proj2
    (C9_deterministic _ _ 100 250 execution_song execution_song
       ltac:(lia) ltac:(lia))))).
Defined.

(** ** Counting in the output *)

Lemma number_agrees_spec (k : option Z) (noun : string) :
  number_agrees (k, noun) = true ->
  exists c, k = Some c
            /\ (noun = "bottle" <-> c = 1)
            /\ (noun = "bottles" <-> c <> 1).
Proof.
  unfold number_agrees. cbn [fst snd].
  destruct k as [c|]; [|discriminate].
  intros H. apply andb_true_iff in H as [H1 H2].
  apply Bool.eqb_prop in H1, H2.
  exists c. split; [reflexivity|].
  destruct (Z.eqb_spec c 1) as [Hc|Hc]; cbn [negb] in H2;
    symmetry in H1, H2.
  - apply String.eqb_eq in H1. apply String.eqb_neq in H2. tauto.
  - apply String.eqb_neq in H1. apply String.eqb_eq in H2. tauto.
Qed.

(** C4. Every occurrence of the noun in the output stands next to a count
    (a numeral, or "no more" for zero), and it is the singular "bottle"
    exactly when that count is 1 and the plural "bottles" exactly when it is
    not; the count zero does occur, with the plural.  The scan misses no
    occurrence: it finds as many nouns as the text "bottle" has occurrences
    in the output. *)
Theorem C4_pluralization :
  (forall k noun,
      In (k, noun) (noun_occurrences song) ->
      exists c, k = Some c
                /\ (noun = "bottle" <-> c = 1)
                /\ (noun = "bottles" <-> c <> 1))
  /\ In (Some 0, "bottles") (noun_occurrences song)
  /\ In (Some 1, "bottle") (noun_occurrences song)
  /\ length (noun_occurrences song) = count_sub "bottle" song
  /\ count_sub "bottle" song = 300%nat.
Proof.
  split; [|split; [|split; [|split]]].
  - intros k noun Hin. apply number_agrees_spec.
    assert (Hall : forallb number_agrees (noun_occurrences song) = true)
      by (vm_compute; reflexivity).
    rewrite forallb_forall in Hall. apply Hall. exact Hin.
  - apply nth_error_In with 296%nat. vm_compute. reflexivity.
  - apply nth_error_In with 293%nat. vm_compute. reflexivity.
  - vm_compute. reflexivity.
  - vm_compute. reflexivity.
Qed.

Lemma C4_pluralization_witness :
  In (Some 2, "bottles") (noun_occurrences song)
  /\ (("bottles" = "bottle")%type <-> 2 = 1).
Proof.
  assert (Hin : In (Some 2, "bottles") (noun_occurrences song)).
  { apply nth_error_In with 290%nat. vm_compute. reflexivity. }
  split; [exact Hin|].
  destruct (proj1 C4_pluralization _ _ Hin) as (c & Hc & Hsing & _).
  injection Hc as <-. exact Hsing.
Defined.

(** C7. The text "no more bottles", matched as written (case-sensitively),
    occurs exactly twice in the output: once in Line B of the verse for 1
    and once in the first line of the closing couplet; it occurs in no other
    verse and not in the last line. *)
Theorem C7_no_more_bottles_twice :
  let needle := "no more bottles" in
  count_sub needle song = 2%nat
  /\ count_in_line 1 needle (verse_text 1) = Some 1%nat
  /\ count_sub needle (verse_text 1) = 1%nat
  /\ (forall n, 2 <= n <= 99 -> count_sub needle (verse_text n) = 0%nat)
  /\ count_sub needle closing1 = 1%nat
  /\ count_sub needle closing2 = 0%nat
  /\ count_in_line 295 needle song = Some 1%nat
  /\ nth_line 295 song = nth_line 1 (verse_text 1)
  /\ count_in_line 297 needle song = Some 1%nat
  /\ nth_line 297 song = Some closing1.
Proof.
  intros needle.
  split; [vm_compute; reflexivity|].
  split; [vm_compute; reflexivity|].
  split; [vm_compute; reflexivity|].
  split.
  { intros n Hn. apply Nat.eqb_eq.
    apply (forallb_upto
             (fun k => (count_sub needle (verse_text k) =? 0)%nat) 98 2).
    - vm_compute. reflexivity.
    - lia. }
  split; [vm_compute; reflexivity|].
  split; [vm_compute; reflexivity|].
  split; [vm_compute; reflexivity|].
  split; [vm_compute; reflexivity|].
  split; [vm_compute; reflexivity|].
  vm_compute. reflexivity.
Qed.

Lemma C7_no_more_bottles_twice_witness :
  2 <= 2 <= 99 /\ count_sub "no more bottles" (verse_text 2) = 0%nat.
Proof.
  split; [lia|].
  exact (proj1 (proj2 (proj2 (proj2 C7_no_more_bottles_twice))) 2 ltac:(lia)).
Defined.

(** The capitalised "No more bottles" that opens the closing couplet is a
    different byte sequence and is not counted above. *)
Example capitalised_no_more : count_sub "No more bottles" song = 1%nat.
Proof. vm_compute. reflexivity. Qed.

(** C8, as stated: for all [n] in [2, 99], the decimal numeral of [n]
    occurs exactly twice in Line A of the verse for [n], and that of [n - 1]
    exactly twice in Line B.  This fails: Line B of the verse for 2 is "Take
    one down and pass it around, 1 bottle of beer on the wall.", where "1"
    occurs once. *)
Lemma C8_line_B_twice_fails :
  nth_line 1 (verse_text 2)
  = Some "Take one down and pass it around, 1 bottle of beer on the wall."
  /\ count_in_line 1 (Lyrics.decimal (2 - 1)) (verse_text 2) = Some 1%nat
  /\ ~ (forall n, 2 <= n <= 99 ->
          count_in_line 0 (Lyrics.decimal n) (verse_text n) = Some 2%nat
          /\ count_in_line 1 (Lyrics.decimal (n - 1)) (verse_text n)
             = Some 2%nat).
Proof.
  split; [vm_compute; reflexivity|].
  split; [vm_compute; reflexivity|].
  intros H. destruct (H 2 ltac:(lia)) as [_ HB].
  vm_compute in HB. discriminate HB.
Qed.

(** C8, amended: for all [n] in [2, 99], the decimal numeral of [n] occurs
    exactly twice in Line A of the verse for [n], and the decimal numeral of
    [n - 1] occurs exactly once in Line B. *)
Theorem C8_count_occurrences (n : Z) :
  2 <= n <= 99 ->
  count_in_line 0 (Lyrics.decimal n) (verse_text n) = Some 2%nat
  /\ count_in_line 1 (Lyrics.decimal (n - 1)) (verse_text n) = Some 1%nat.
Proof.
  intros Hn.
  pose (check := fun k =>
    match count_in_line 0 (Lyrics.decimal k) (verse_text k),
          count_in_line 1 (Lyrics.decimal (k - 1)) (verse_text k) with
    | Some a, Some b => ((a =? 2) && (b =? 1))%nat
    | _, _ => false
    end).
  assert (Hcheck : check n = true).
  { apply (forallb_upto check 98 2); [vm_compute; reflexivity | lia]. }
  unfold check in Hcheck.
  destruct (count_in_line 0 _ _) as [a|]; [|discriminate].
  destruct (count_in_line 1 _ _) as [b|]; [|discriminate].
  apply andb_true_iff in Hcheck as [Ha Hb].
  apply Nat.eqb_eq in Ha, Hb. now subst.
Qed.

Lemma C8_count_occurrences_witness :
  2 <= 11 <= 99
  /\ count_in_line 0 "11" (verse_text 11) = Some 2%nat
  /\ count_in_line 1 "10" (verse_text 11) = Some 1%nat.
Proof.
  split; [lia|]. exact (C8_count_occurrences 11 ltac:(lia)).
Defined.

(** * Further properties of the loop and its output *)

(** ** The loop body on an arbitrary [int] *)

Lemma sub_one_no_wrap (n : Z) :
  CInt.int_min < n <= CInt.int_max -> CInt.sub n 1 = n - 1.
Proof.
  intros Hn. unfold CInt.sub. apply wrap_in_range.
  unfold CInt.in_range. apply andb_true_iff. split; apply Z.leb_le; lia.
Qed.

Lemma no_LF_plural (n : Z) : no_LF (plural n) = true.
Proof. unfold plural. now destruct (n =? 1). Qed.

(** Whatever the counter and whatever was written before, the body
    returns, and it appends the same text it writes to an empty output. *)
Lemma loop_body_frame (n : Z) (out : string) :
  exists r, loop_body n out = Returns r (out ++ verse_text n).
Proof.
  unfold verse_text, emitted, loop_body, bind, printf, write.
  rewrite format_wall_beer.
  destruct (CInt.sub n 1 >? 0).
  - rewrite format_take_down. cbn [append].
    eexists. f_equal. apply append_assoc.
  - rewrite format_no_more. cbn [append].
    eexists. f_equal. apply append_assoc.
Qed.

Lemma verse_text_any_int (n : Z) :
  CInt.int_min < n <= CInt.int_max ->
  verse_text n
  = ((conv_d n ++ " bottle" ++ plural n ++ " of beer on the wall, "
        ++ conv_d n ++ " bottle" ++ plural n ++ " of beer.")
     ++ nl
     ++ (if n >? 1
         then "Take one down and pass it around, "
                ++ conv_d (n - 1) ++ " bottle" ++ plural (n - 1)
                ++ " of beer on the wall."
         else "Take one down and pass it around, no more bottles of beer on the wall.")
     ++ nl ++ nl)%string.
Proof.
  intros Hn.
  unfold verse_text, emitted, loop_body, bind, printf, write.
  rewrite format_wall_beer, sub_one_no_wrap by exact Hn.
  assert (Hcmp : (n - 1 >? 0) = (n >? 1)).
  { destruct (n >? 1) eqn:E.
    - apply Z.gtb_lt in E. apply Z.gtb_lt. lia.
    - destruct (n - 1 >? 0) eqn:E'; [|reflexivity].
      apply Z.gtb_lt in E'.
      assert (E1 : (n >? 1) = true) by (apply Z.gtb_lt; lia).
      congruence. }
  rewrite Hcmp. destruct (n >? 1).
  - rewrite format_take_down. cbn [append]. now rewrite !append_assoc.
  - rewrite format_no_more. cbn [append]. now rewrite !append_assoc.
Qed.

(** For every [int] above [INT_MIN], and whatever is already on the output,
    the body's [printf] calls agree with their arguments (no fault), the
    earlier output is kept, and exactly three newline-terminated lines are
    appended: the wall line for [n], then the "take one down" line for
    [n - 1] if [n > 1] and the fixed "no more bottles" line for every
    [n <= 1], then an empty line. *)
Theorem loop_body_any_int (n : Z) (out : string) :
  CInt.int_min < n <= CInt.int_max ->
  (exists r, loop_body n out = Returns r (out ++ verse_text n))
  /\ lines (verse_text n)
     = ([ (conv_d n ++ " bottle" ++ plural n ++ " of beer on the wall, "
            ++ conv_d n ++ " bottle" ++ plural n ++ " of beer.")%string;
          (if n >? 1
           then "Take one down and pass it around, "
                  ++ conv_d (n - 1) ++ " bottle" ++ plural (n - 1)
                  ++ " of beer on the wall."
           else "Take one down and pass it around, no more bottles of beer on the wall.")%string;
          "" ], "").
Proof.
  intros Hn. split; [apply loop_body_frame|].
  rewrite verse_text_any_int by exact Hn.
  rewrite lines_line.
  - rewrite lines_line; [reflexivity|].
    destruct (n >? 1); [|reflexivity].
    rewrite !no_LF_app, no_LF_conv_d, no_LF_plural. reflexivity.
  - rewrite !no_LF_app, !no_LF_conv_d, !no_LF_plural. reflexivity.
Qed.

Lemma loop_body_any_int_witness :
  CInt.int_min < 0 <= CInt.int_max
  /\ lines (verse_text 0)
     = ([ "0 bottles of beer on the wall, 0 bottles of beer.";
          "Take one down and pass it around, no more bottles of beer on the wall.";
          "" ], "").
Proof.
  assert (H : CInt.int_min < 0 <= CInt.int_max)
    by (unfold CInt.int_min, CInt.int_max; lia).
  split; [exact H|].
  exact (proj2 (loop_body_any_int 0 "" H)).
Defined.

(** ** The loop from an arbitrary start *)

Lemma for_loop_from_nat (k : nat) :
  forall fuel out,
    (k < fuel)%nat -> Z.of_nat k <= CInt.int_max ->
    for_loop fuel (Z.of_nat k) out
    = Returns tt (out ++ cat (map verse_text (Lyrics.countdown k))).
Proof.
  induction k as [|k IH]; intros fuel out Hfuel Hk;
    (destruct fuel as [|fuel]; [lia|]); cbn [for_loop].
  - cbn [Lyrics.countdown map cat fold_right]. now rewrite append_empty_r.
  - assert (Hge : (Z.of_nat (S k) >=? 1) = true) by (apply Z.geb_le; lia).
    rewrite Hge. unfold bind.
    destruct (loop_body_frame (Z.of_nat (S k)) out) as [r ->].
    unfold CInt.pred. rewrite sub_one_no_wrap
      by (unfold CInt.int_min; lia).
    replace (Z.of_nat (S k) - 1) with (Z.of_nat k) by lia.
    rewrite IH by lia.
    cbn [Lyrics.countdown map cat fold_right].
    now rewrite append_assoc.
Qed.

(** Started at any [int] [n], with fuel for its tests, the loop returns
    having appended the bodies' texts for [n, n-1, ..., 1] in that order, and
    nothing if [n < 1]; the counter never wraps on the way. *)
Theorem for_loop_any_start (n : Z) (fuel : nat) (out : string) :
  n <= CInt.int_max ->
  (Z.to_nat n < fuel)%nat ->
  for_loop fuel n out
  = Returns tt (out ++ cat (map verse_text (Lyrics.countdown (Z.to_nat n)))).
Proof.
  intros Hmax Hfuel.
  destruct (Z.le_gt_cases 0 n) as [Hpos|Hneg].
  - rewrite <- (Z2Nat.id n Hpos) at 1.
    apply for_loop_from_nat; [exact Hfuel | rewrite Z2Nat.id; assumption].
  - destruct fuel as [|fuel]; [lia|]. cbn [for_loop].
    assert (Hge : (n >=? 1) = false).
    { destruct (Z.geb_spec n 1); [lia | reflexivity]. }
    rewrite Hge.
    replace (Z.to_nat n) with 0%nat by lia.
    cbn [Lyrics.countdown map cat fold_right]. unfold ret.
    now rewrite append_empty_r.
Qed.

Lemma for_loop_any_start_witness :
  2 <= CInt.int_max
  /\ (Z.to_nat 2 < 3)%nat
  /\ for_loop 3 2 "intro"
     = Returns tt ("intro" ++ cat [verse_text 2; verse_text 1]).
Proof.
  assert (Hmax : 2 <= CInt.int_max) by (unfold CInt.int_max; lia).
  assert (Hfuel : (Z.to_nat 2 < 3)%nat) by (vm_compute; lia).
  split; [exact Hmax | split; [exact Hfuel|]].
  exact (for_loop_any_start 2 3 "intro" Hmax Hfuel).
Defined.

(** ** What every reachable configuration satisfies *)

(** Along the run, while counting at [n]: [n] is between 0 and 99, so
    [n - 1] is representable and the [int] subtraction is exact (no signed
    overflow, and the counter never goes below 0); and the output so far,
    followed by the verses for [n, ..., 1], is the whole verse part of the
    song.  Once halted, the status is 0 and the output is the song. *)
Theorem reachable_configurations (c : config) :
  reachable c ->
  match ctl c with
  | Counting n =>
      0 <= n <= 99
      /\ CInt.in_range (n - 1) = true
      /\ CInt.sub n 1 = n - 1
      /\ (out c ++ cat (map verse_text (Lyrics.countdown (Z.to_nat n))))%string
         = cat (map verse_text (Lyrics.countdown 99))
  | Halted status => status = 0 /\ out c = song
  end.
Proof.
  intros Hreach. apply invariant_reachable in Hreach.
  unfold invariant in Hreach.
  destruct (ctl c) as [n|status]; [|exact Hreach].
  destruct Hreach as (k & -> & Hk & Hout).
  split; [lia|]. split.
  { unfold CInt.in_range, CInt.int_min, CInt.int_max.
    apply andb_true_iff. split; apply Z.leb_le; lia. }
  split; [apply sub_one_exact; lia|].
  rewrite Nat2Z.id, !map_verse_text by lia. exact Hout.
Qed.

Lemma reachable_configurations_witness :
  reachable (Config (Counting 98) (verse_text 99))
  /\ CInt.sub 98 1 = 98 - 1.
Proof.
  assert (Hreach : reachable (Config (Counting 98) (verse_text 99))).
  { apply steps_cons with (Config (Counting 98) (verse_text 99));
      [|apply steps_refl].
    apply step_next. vm_compute. reflexivity. }
  split; [exact Hreach|].
  exact (proj1 (proj2 (proj2 (reachable_configurations _ Hreach)))).
Defined.

(** ** Where each line of the song is *)

Lemma nth_error_flat_map_verse_lines (ns : list Z) :
  forall i j n,
    nth_error ns i = Some n -> (j < 3)%nat ->
    nth_error (flat_map Lyrics.verse_lines ns) (3 * i + j)
    = nth_error (Lyrics.verse_lines n) j.
Proof.
  induction ns as [|m ns IH]; intros i j n Hi Hj.
  - destruct i; discriminate.
  - destruct i as [|i].
    + injection Hi as ->. cbn [flat_map].
      rewrite nth_error_app1; [f_equal; lia | cbn; lia].
    + cbn [nth_error] in Hi.
      replace (3 * S i + j)%nat with (S (S (S (3 * i + j)))) by lia.
      cbn [flat_map Lyrics.verse_lines app nth_error].
      now apply IH.
Qed.

(** For [i < 99], lines [3i], [3i+1] and [3i+2] of the output (from 0) are
    Line A and Line B of the verse for [99 - i] and a blank line. *)
Theorem song_line_index (i : nat) :
  (i < 99)%nat ->
  nth_line (3 * i) song = Some (Lyrics.line_A (99 - Z.of_nat i))
  /\ nth_line (3 * i + 1) song = Some (Lyrics.line_B (99 - Z.of_nat i))
  /\ nth_line (3 * i + 2) song = Some "".
Proof.
  intros Hi. unfold nth_line. rewrite lines_song. cbn [fst].
  assert (Hn := nth_error_countdown 99 i Hi).
  assert (Hlen : forall j, (j < 3)%nat ->
            (3 * i + j
             < length (flat_map Lyrics.verse_lines (Lyrics.countdown 99)))%nat).
  { intros j Hj.
    rewrite length_flat_map_verse_lines, length_countdown. lia. }
  replace (3 * i)%nat with (3 * i + 0)%nat at 1 by lia.
  rewrite !nth_error_app1 by (apply Hlen; lia).
  rewrite !(nth_error_flat_map_verse_lines _ _ _ _ Hn) by lia.
  repeat split.
Qed.

Lemma song_line_index_witness :
  (98 < 99)%nat
  /\ nth_line 294 song
     = Some "1 bottle of beer on the wall, 1 bottle of beer."
  /\ nth_line 296 song = Some "".
Proof.
  split; [lia|].
  pose proof (song_line_index 98 ltac:(lia)) as (HA & _ & Hblank).
  split; [exact HA | exact Hblank].
Defined.

(** ** Consecutive verses *)

(** For [n] in [2, 99], what is left on the wall at the end of the verse
    for [n] is what the verse for [n - 1] starts with: with [q] the phrase
    ["{n-1} bottle{s} of beer"], Line B of the verse for [n] is ["Take one
    down and pass it around, q on the wall."] and Line A of the verse for
    [n - 1] is ["q on the wall, q."]. *)
Theorem verses_chain (n : Z) :
  2 <= n <= 99 ->
  let q := (Lyrics.decimal (n - 1) ++ " bottle"
              ++ (if Z.eq_dec (n - 1) 1 then "" else "s") ++ " of beer")%string in
  nth_line 1 (verse_text n)
  = Some ("Take one down and pass it around, " ++ q ++ " on the wall.")%string
  /\ nth_line 0 (verse_text (n - 1))
     = Some (q ++ " on the wall, " ++ q ++ ".")%string.
Proof.
  intros Hn q. unfold nth_line.
  rewrite !verse_text_eq, !lines_verse by lia.
  cbn [fst nth_error]. subst q.
  unfold Lyrics.line_A, Lyrics.line_B, Lyrics.s_of.
  destruct (Z_gt_dec (n - 1) 0); [|lia].
  rewrite !append_assoc. split; reflexivity.
Qed.

Lemma verses_chain_witness :
  2 <= 2 <= 99
  /\ nth_line 1 (verse_text 2)
     = Some "Take one down and pass it around, 1 bottle of beer on the wall."
  /\ nth_line 0 (verse_text (2 - 1))
     = Some "1 bottle of beer on the wall, 1 bottle of beer.".
Proof.
  split; [lia|]. exact (verses_chain 2 ltac:(lia)).
Defined.

(** ** Reading a verse back *)

(** For [n] from 1 to 99, scanning the verse for [n] with a reader that is
    independent of the printer (words, decimal numerals, "no more" for
    zero) finds exactly three nouns: two with the count [n] and one with the
    count [n - 1], each singular exactly when its count is 1. *)
Theorem verse_reads_back (n : Z) :
  1 <= n <= 99 ->
  let noun := fun k : Z => if k =? 1 then "bottle" else "bottles" in
  noun_occurrences (verse_text n)
  = [(Some n, noun n); (Some n, noun n); (Some (n - 1), noun (n - 1))].
Proof.
  intros Hn noun.
  pose (check := fun k =>
    match noun_occurrences (verse_text k) with
    | [(Some a, x); (Some b, y); (Some c, z)] =>
        (a =? k) && (b =? k) && (c =? k - 1)
        && (x =? noun k)%string && (y =? noun k)%string
        && (z =? noun (k - 1))%string
    | _ => false
    end).
  assert (Hcheck : check n = true).
  { apply (forallb_upto check 99 1); [vm_compute; reflexivity | lia]. }
  unfold check in Hcheck.
  destruct (noun_occurrences (verse_text n))
    as [|[[a|] x] [|[[b|] y] [|[[c|] z] [|]]]]; try discriminate.
  repeat (apply andb_true_iff in Hcheck as [Hcheck ?]).
  repeat match goal with
         | H : (_ =? _) = true |- _ => apply Z.eqb_eq in H
         | H : (_ =? _)%string = true |- _ => apply String.eqb_eq in H
         end.
  subst a b c x y z. reflexivity.
Qed.

Lemma verse_reads_back_witness :
  1 <= 1 <= 99
  /\ noun_occurrences (verse_text 1)
     = [(Some 1, "bottle"); (Some 1, "bottle"); (Some 0, "bottles")].
Proof.
  split; [lia|]. exact (verse_reads_back 1 ltac:(lia)).
Defined.
